(** * Expression trees with a visitor: evaluation and structural copy

    A shallow embedding of [lab6_task1_trpo.cpp]: the four node classes of
    [Expression], their [evaluate] methods, the [Transformer] visitor
    interface and its implementation [CopySyntaxTree]. *)

From Stdlib Require Import ZArith Lia Bool String Ascii Floats.
From stdpp Require Import gmap.

#[local] Open Scope Z_scope.

(** ** Machine data *)

(** [double] is IEEE 754 binary64; the arithmetic of the source is the
    kernel's binary64 arithmetic (round to nearest even, a single NaN). *)
Definition double : Type := float.

(** [int] is a 32-bit two's-complement integer, held in a [Z]. *)
Definition INT_MIN : Z := - 2 ^ 31.
Definition INT_MAX : Z := 2 ^ 31 - 1.
Definition is_int (z : Z) : Prop := INT_MIN <= z <= INT_MAX.

(** Conversion of an [int] to plain [char] (8 bits, signed as on x86 and x64):
    the value is reduced modulo 256 into [-128, 127].  Converting the [char]
    back to [int] keeps the value. *)
Definition int_to_char (z : Z) : Z := (z + 128) mod 256 - 128.

(** The same conversion where plain [char] is unsigned. *)
Definition int_to_uchar (z : Z) : Z := z mod 256.

Definition char_literal (c : ascii) : Z := Z.of_nat (nat_of_ascii c).

(** ** The expression classes *)

(** [struct Number], [struct BinaryOperation], [struct FunctionCall] and
    [struct Variable], the four classes that derive from [Expression].  The
    constructors take their arguments in the order of the C++ constructors;
    children are owned subtrees, so an [Expression] is a finite tree.
    [Variable] is a reserved word here: the class is [Variable_]. *)
Inductive Expression : Type :=
| Number (value_ : double)
| BinaryOperation (left_ : Expression) (op_ : Z) (right_ : Expression)
| FunctionCall (name_ : string) (arg_ : Expression)
| Variable_ (name_ : string) (value_ : double).

(** [static constexpr char PLUS = '+';] and its siblings. *)
Definition PLUS : Z := char_literal "+".
Definition MINUS : Z := char_literal "-".
Definition DIV : Z := char_literal "/".
Definition MUL : Z := char_literal "*".

(** [char operation() const { return op_; }]: the stored [int] leaves the
    accessor as a [char]. *)
Definition operation (op_ : Z) : Z := int_to_char op_.

(** Modelled from the spec: the declarations of [sqrt] and [abs].  The source
    calls both unqualified and includes only <iostream> and <string>, so the
    functions are the ones the hosting headers put in the global namespace;
    their declarations are not part of the sources.  The spec names them the
    square root and the absolute value of a floating-point number, which are
    the overloads [double sqrt(double)] and [double abs(double)].  (Headers
    whose only global [abs] is C's [int abs(int)] would convert the argument
    to [int] first; that resolution is not the one modelled.) *)
Definition sqrt (x : double) : double := PrimFloat.sqrt x.
Definition abs (x : double) : double := PrimFloat.abs x.

(** [Number::evaluate], [BinaryOperation::evaluate], [FunctionCall::evaluate]
    and [Variable::evaluate], reached through the virtual call. *)
Fixpoint evaluate (e : Expression) : double :=
  match e with
  | Number value_ => value_
  | BinaryOperation left_ op_ right_ =>
      let left_value := evaluate left_ in
      let right_value := evaluate right_ in
      if op_ =? PLUS then (left_value + right_value)%float
      else if op_ =? MINUS then (left_value - right_value)%float
      else if op_ =? DIV then (left_value / right_value)%float
      else if op_ =? MUL then (left_value * right_value)%float
      else 0%float
  | FunctionCall name_ arg_ =>
      let arg_value := evaluate arg_ in
      if String.eqb name_ "sqrt" then sqrt arg_value
      else if String.eqb name_ "abs" then abs arg_value
      else 0%float
  | Variable_ _ value_ => value_
  end.

(** ** The visitor *)

(** A virtual call re-enters the tree one level down; [fuel] bounds the depth
    of nested calls, and [None] is a call that ran out of it. *)
Definition call (A : Type) : Type := option A.

Definition ret {A : Type} (a : A) : call A := Some a.

Definition bind {A B : Type} (c : call A) (k : A -> call B) : call B :=
  match c with
  | Some a => k a
  | None => None
  end.

Notation "x <- c ;; k" := (bind c (fun x => k))
  (at level 62, c at next level, right associativity).

(** [struct Transformer]: one method per class.  A method receives the node
    as its fields and, as [this_], the dispatch [e->transform(this)] through
    which it re-enters the tree. *)
Record Transformer : Type := {
  transformNumber :
    (Expression -> call Expression) -> double -> call Expression;
  transformBinaryOperation :
    (Expression -> call Expression) ->
    Expression -> Z -> Expression -> call Expression;
  transformFunctionCall :
    (Expression -> call Expression) -> string -> Expression -> call Expression;
  transformVariable :
    (Expression -> call Expression) -> string -> double -> call Expression
}.

(** [Expression::transform]: each class hands itself to the method of the
    transformer that belongs to it. *)
Fixpoint transform (fuel : nat) (tr : Transformer) (e : Expression)
  : call Expression :=
  match fuel with
  | O => None
  | S fuel' =>
      let this_ := transform fuel' tr in
      match e with
      | Number value_ => transformNumber tr this_ value_
      | BinaryOperation left_ op_ right_ =>
          transformBinaryOperation tr this_ left_ op_ right_
      | FunctionCall name_ arg_ => transformFunctionCall tr this_ name_ arg_
      | Variable_ name_ value_ => transformVariable tr this_ name_ value_
      end
  end.

(** [struct CopySyntaxTree : Transformer]. *)
Definition CopySyntaxTree : Transformer := {|
  transformNumber := fun _ value_ => ret (Number value_);
  transformBinaryOperation := fun this_ left_ op_ right_ =>
    left <- this_ left_ ;;
    right <- this_ right_ ;;
    ret (BinaryOperation left (operation op_) right);
  transformFunctionCall := fun this_ name_ arg_ =>
    arg <- this_ arg_ ;;
    ret (FunctionCall name_ arg);
  transformVariable := fun _ name_ value_ =>
    ret (Variable_ name_ (evaluate (Variable_ name_ value_)))
|}.

(** [evaluate] under the same bound on nested calls. *)
Fixpoint evaluate_within (fuel : nat) (e : Expression) : call double :=
  match fuel with
  | O => None
  | S fuel' =>
      match e with
      | Number value_ => ret value_
      | BinaryOperation left_ op_ right_ =>
          left_value <- evaluate_within fuel' left_ ;;
          right_value <- evaluate_within fuel' right_ ;;
          ret (if op_ =? PLUS then (left_value + right_value)%float
               else if op_ =? MINUS then (left_value - right_value)%float
               else if op_ =? DIV then (left_value / right_value)%float
               else if op_ =? MUL then (left_value * right_value)%float
               else 0%float)
      | FunctionCall name_ arg_ =>
          arg_value <- evaluate_within fuel' arg_ ;;
          ret (if String.eqb name_ "sqrt" then sqrt arg_value
               else if String.eqb name_ "abs" then abs arg_value
               else 0%float)
      | Variable_ _ value_ => ret value_
      end
  end.

(** The tree [CopySyntaxTree] builds, with the dispatch resolved: what
    [e->transform(&CST)] returns once its calls have come back. *)
Fixpoint copy (e : Expression) : Expression :=
  match e with
  | Number value_ => Number value_
  | BinaryOperation left_ op_ right_ =>
      BinaryOperation (copy left_) (operation op_) (copy right_)
  | FunctionCall name_ arg_ => FunctionCall name_ (copy arg_)
  | Variable_ name_ value_ => Variable_ name_ value_
  end.

(** Number of nodes on the longest path from the root to a leaf. *)
Fixpoint height (e : Expression) : nat :=
  match e with
  | Number _ | Variable_ _ _ => 1
  | BinaryOperation left_ _ right_ => S (Nat.max (height left_) (height right_))
  | FunctionCall _ arg_ => S (height arg_)
  end.

(** ** Predicates on trees and tags *)

Definition known_operatorb (op : Z) : bool :=
  (op =? PLUS) || (op =? MINUS) || (op =? DIV) || (op =? MUL).

Definition known_operator (op : Z) : Prop :=
  op = PLUS \/ op = MINUS \/ op = DIV \/ op = MUL.

Definition is_char (z : Z) : Prop := -128 <= z <= 127.

(** Every operator tag of the tree is the value of some [char]. *)
Fixpoint char_tags (e : Expression) : Prop :=
  match e with
  | Number _ | Variable_ _ _ => True
  | BinaryOperation left_ op_ right_ =>
      char_tags left_ /\ is_char op_ /\ char_tags right_
  | FunctionCall _ arg_ => char_tags arg_
  end.

(** The tag a [BinaryOperation] node holds in its field [op_]. *)
Definition stored_op (e : Expression) : option Z :=
  match e with
  | BinaryOperation _ op_ _ => Some op_
  | _ => None
  end.

(** Same class and same stored data at the root, and so on below: the
    relation the copy is meant to have to its source. *)
Fixpoint same_structure (a b : Expression) : Prop :=
  match a, b with
  | Number v, Number w => v = w
  | BinaryOperation l1 op1 r1, BinaryOperation l2 op2 r2 =>
      same_structure l1 l2 /\ op1 = op2 /\ same_structure r1 r2
  | FunctionCall n1 a1, FunctionCall n2 a2 => n1 = n2 /\ same_structure a1 a2
  | Variable_ n1 v, Variable_ n2 w => n1 = n2 /\ v = w
  | _, _ => False
  end.

(** The tree of [main]: abs(var * sqrt(32 - 16)) with var = 10. *)
Definition callAbs : Expression :=
  FunctionCall "abs"
    (BinaryOperation (Variable_ "var" 10%float) MUL
       (FunctionCall "sqrt"
          (BinaryOperation (Number 32%float) MINUS (Number 16%float)))).

(** A tree whose operator tag is an [int] outside the range of [char]. *)
Definition wide_tag : Expression :=
  BinaryOperation (Number 1%float) 299 (Number 2%float).

(** ** Shape of the copy *)

(** What [evaluate] computes from the values of the children. *)
Definition apply_operator (op_ : Z) (left_value right_value : double) : double :=
  if op_ =? PLUS then (left_value + right_value)%float
  else if op_ =? MINUS then (left_value - right_value)%float
  else if op_ =? DIV then (left_value / right_value)%float
  else if op_ =? MUL then (left_value * right_value)%float
  else 0%float.

Definition apply_function (name_ : string) (arg_value : double) : double :=
  if String.eqb name_ "sqrt" then sqrt arg_value
  else if String.eqb name_ "abs" then abs arg_value
  else 0%float.

(** Every operator tag of the tree is one of the four constants. *)
Fixpoint known_tags (e : Expression) : Prop :=
  match e with
  | Number _ | Variable_ _ _ => True
  | BinaryOperation left_ op_ right_ =>
      known_tags left_ /\ known_operator op_ /\ known_tags right_
  | FunctionCall _ arg_ => known_tags arg_
  end.

(** [b] has the classes, names and values of [a] at the same places, and
    each of its tags is what [operation()] returns for the tag of [a]. *)
Fixpoint narrowed (a b : Expression) : Prop :=
  match a, b with
  | Number v, Number w => v = w
  | BinaryOperation l1 op1 r1, BinaryOperation l2 op2 r2 =>
      narrowed l1 l2 /\ op2 = operation op1 /\ narrowed r1 r2
  | FunctionCall n1 a1, FunctionCall n2 a2 => n1 = n2 /\ narrowed a1 a2
  | Variable_ n1 v, Variable_ n2 w => n1 = n2 /\ v = w
  | _, _ => False
  end.

(** ** Objects in memory *)

(** The nodes as [new] and [delete] see them: objects at addresses, the
    children held as pointers.  [None] is the null pointer. *)
Definition addr : Type := positive.
Definition ptr : Type := option addr.

(** The data members of the four classes, in the order they are declared. *)
Inductive object : Type :=
| ONumber (value_ : double)
| OBinaryOperation (left_ : ptr) (right_ : ptr) (op_ : Z)
| OFunctionCall (name_ : string) (arg_ : ptr)
| OVariable (name_ : string) (value_ : double).

Abbreviation store := (gmap addr object).

(** A member function that may allocate or release: it runs on a store and
    returns a result and the store it leaves, or [None] where its behaviour
    is undefined (a null or dangling pointer is used, an object is released
    twice) or the bound on nested calls is reached. *)
Definition run (A : Type) : Type := store -> option (A * store).

Definition run_ret {A : Type} (a : A) : run A := fun s => Some (a, s).

Definition run_fail {A : Type} : run A := fun _ => None.

Definition run_bind {A B : Type} (m : run A) (k : A -> run B) : run B :=
  fun s =>
    match m s with
    | Some (a, s') => k a s'
    | None => None
    end.

Notation "x <~ m ;; k" := (run_bind m (fun x => k))
  (at level 62, m at next level, right associativity).

(** [*p] for reading. *)
Definition load (p : ptr) : run object :=
  fun s =>
    match p with
    | Some a =>
        match s !! a with
        | Some o => Some (o, s)
        | None => None
        end
    | None => None
    end.

(** The release of the storage of the object at [a], which must be live. *)
Definition free (a : addr) : run unit :=
  fun s =>
    match s !! a with
    | Some _ => Some (tt, delete a s)
    | None => None
    end.

(** [p->evaluate()], for [p] a pointer into the store [s].  The methods are
    [const] and allocate nothing: the store is only read. *)
Fixpoint evaluate_at (fuel : nat) (s : store) (p : ptr) : call double :=
  match fuel with
  | O => None
  | S fuel' =>
      match p with
      | None => None
      | Some a =>
          match s !! a with
          | None => None
          | Some (ONumber value_) => ret value_
          | Some (OBinaryOperation left_ right_ op_) =>
              left_value <- evaluate_at fuel' s left_ ;;
              right_value <- evaluate_at fuel' s right_ ;;
              ret (apply_operator op_ left_value right_value)
          | Some (OFunctionCall name_ arg_) =>
              arg_value <- evaluate_at fuel' s arg_ ;;
              ret (apply_function name_ arg_value)
          | Some (OVariable _ value_) => ret value_
          end
      end
  end.

Section Allocation.

(** What [operator new] hands out in a given store. *)
Variable alloc : store -> addr.

(** [new T(...)]: the object is placed at the address [alloc] chooses. *)
Definition new (o : object) : run ptr :=
  fun s => let a := alloc s in Some (Some a, <[a := o]> s).

(** [p->transform(&CST)] for a [CopySyntaxTree CST]: the four methods of
    [CopySyntaxTree], each reached from the class of the object at [p]. *)
Fixpoint transform_at (fuel : nat) (p : ptr) : run ptr :=
  match fuel with
  | O => run_fail
  | S fuel' =>
      o <~ load p ;;
      match o with
      | ONumber value_ => new (ONumber value_)
      | OBinaryOperation left_ right_ op_ =>
          left <~ transform_at fuel' left_ ;;
          right <~ transform_at fuel' right_ ;;
          new (OBinaryOperation left right (operation op_))
      | OFunctionCall name_ arg_ =>
          arg <~ transform_at fuel' arg_ ;;
          new (OFunctionCall name_ arg)
      | OVariable name_ value_ => new (OVariable name_ value_)
      end
  end.

End Allocation.

(** [delete p]: nothing for the null pointer; otherwise the destructor of
    the class of [*p] runs ([~BinaryOperation] deletes [left_] and then
    [right_], [~FunctionCall] deletes [arg_]) and the storage is released. *)
Fixpoint delete_at (fuel : nat) (p : ptr) {struct fuel} : run unit :=
  match p with
  | None => run_ret tt
  | Some a =>
      match fuel with
      | O => run_fail
      | S fuel' =>
          o <~ load p ;;
          _ <~ match o with
               | OBinaryOperation left_ right_ _ =>
                   _ <~ delete_at fuel' left_ ;;
                   delete_at fuel' right_
               | OFunctionCall _ arg_ => delete_at fuel' arg_
               | ONumber _ | OVariable _ _ => run_ret tt
               end ;;
          free a
      end
  end.

(** A [const] member function as a step of a run: it reads the store and
    leaves it as it is. *)
Definition read {A : Type} (f : store -> call A) : run A :=
  fun s =>
    match f s with
    | Some a => Some (a, s)
    | None => None
    end.

(** [main], with the two numbers it prints as its result: the tree is built
    bottom-up with [new], evaluated, copied, the copy evaluated, and both
    trees deleted.  [fuel] bounds the nested calls of each of its calls. *)
Definition main (alloc : store -> addr) (fuel : nat) : run (double * double) :=
  n32 <~ new alloc (ONumber 32%float) ;;
  n16 <~ new alloc (ONumber 16%float) ;;
  minus <~ new alloc (OBinaryOperation n32 n16 MINUS) ;;
  callSqrt <~ new alloc (OFunctionCall "sqrt" minus) ;;
  var <~ new alloc (OVariable "var" 10%float) ;;
  mult <~ new alloc (OBinaryOperation var callSqrt MUL) ;;
  callAbs_ <~ new alloc (OFunctionCall "abs" mult) ;;
  result <~ read (fun s => evaluate_at fuel s callAbs_) ;;
  newExpr <~ transform_at alloc fuel callAbs_ ;;
  newResult <~ read (fun s => evaluate_at fuel s newExpr) ;;
  _ <~ delete_at fuel callAbs_ ;;
  _ <~ delete_at fuel newExpr ;;
  run_ret (result, newResult).

(** The store [s] holds the tree [e] with its root at [p], one object per
    node and nothing else: each node owns its children, and no object is
    reached twice. *)
Inductive holds : store -> ptr -> Expression -> Prop :=
| holds_Number (a : addr) (value_ : double) :
    holds {[a := ONumber value_]} (Some a) (Number value_)
| holds_BinaryOperation (a : addr) (sl sr : store) (pl pr : ptr)
    (l r : Expression) (op_ : Z) :
    holds sl pl l -> holds sr pr r ->
    sl ##ₘ sr -> sl !! a = None -> sr !! a = None ->
    holds (<[a := OBinaryOperation pl pr op_]> (sl ∪ sr)) (Some a)
      (BinaryOperation l op_ r)
| holds_FunctionCall (a : addr) (sa : store) (pa : ptr) (e : Expression)
    (name_ : string) :
    holds sa pa e -> sa !! a = None ->
    holds (<[a := OFunctionCall name_ pa]> sa) (Some a) (FunctionCall name_ e)
| holds_Variable (a : addr) (name_ : string) (value_ : double) :
    holds {[a := OVariable name_ value_]} (Some a) (Variable_ name_ value_).

(** An allocator that takes the least unused address. *)
Definition first_free (s : store) : addr := fresh (dom s).

(** A small tree in memory: abs(-2.5), the argument at address 1 and the
    call at address 2. *)
Definition abs_tree : Expression :=
  FunctionCall "abs" (Number (-2.5)%float).

Definition abs_store : store :=
  <[2%positive := OFunctionCall "abs" (Some 1%positive)]>
    {[1%positive := ONumber (-2.5)%float]}.

(** A node at address 2 whose two children are the one object at 1. *)
Definition shared_store : store :=
  <[2%positive := OBinaryOperation (Some 1%positive) (Some 1%positive) PLUS]>
    {[1%positive := ONumber 1%float]}.

(** Two separate leaves, the numbers 1.0 and 2.0 at addresses 1 and 2. *)
Definition leaf_one : store := {[1%positive := ONumber 1%float]}.
Definition leaf_two : store := {[2%positive := ONumber 2%float]}.

(** ** Tags and characters *)

Lemma int_to_char_is_char (z : Z) : is_char (int_to_char z).
Proof.
  unfold is_char, int_to_char.
  pose proof (Z.mod_pos_bound (z + 128) 256 ltac:(lia)). lia.
Qed.

Lemma int_to_char_fixes_char (z : Z) : is_char z -> int_to_char z = z.
Proof.
  unfold is_char, int_to_char. intros Hz.
  rewrite Z.mod_small by lia. lia.
Qed.

Lemma char_is_int (z : Z) : is_char z -> is_int z.
Proof. unfold is_char, is_int, INT_MIN, INT_MAX. lia. Qed.

Lemma known_operatorb_spec (op : Z) :
  known_operatorb op = true <-> known_operator op.
Proof.
  unfold known_operatorb, known_operator.
  rewrite !orb_true_iff, !Z.eqb_eq. tauto.
Qed.

Lemma known_operator_is_char (op : Z) : known_operator op -> is_char op.
Proof.
  unfold known_operator, is_char.
  intros [-> | [-> | [-> | ->]]]; vm_compute; split; discriminate.
Qed.

Lemma unknown_operator_tests (op : Z) :
  ~ known_operator op ->
  (op =? PLUS) = false /\ (op =? MINUS) = false /\
  (op =? DIV) = false /\ (op =? MUL) = false.
Proof.
  intros Hop. rewrite <- known_operatorb_spec in Hop.
  apply not_true_is_false in Hop. unfold known_operatorb in Hop.
  rewrite !orb_false_iff in Hop. tauto.
Qed.

(** ** The copy where every tag is a [char] *)

Lemma copy_fixes_char_tags (e : Expression) : char_tags e -> copy e = e.
Proof.
  induction e as [v | l IHl op r IHr | name a IHa | name v]; simpl.
  - reflexivity.
  - intros (Hl & Hop & Hr).
    rewrite (IHl Hl), (IHr Hr). unfold operation.
    now rewrite (int_to_char_fixes_char op Hop).
  - intros Ha. now rewrite (IHa Ha).
  - reflexivity.
Qed.

Lemma copy_has_char_tags (e : Expression) : char_tags (copy e).
Proof.
  induction e as [v | l IHl op r IHr | name a IHa | name v]; simpl; auto.
  split; [exact IHl | split; [apply int_to_char_is_char | exact IHr]].
Qed.

Lemma copy_copy (e : Expression) : copy (copy e) = copy e.
Proof. apply copy_fixes_char_tags, copy_has_char_tags. Qed.

Lemma same_structure_refl (e : Expression) : same_structure e e.
Proof.
  induction e as [v | l IHl op r IHr | name a IHa | name v]; simpl; auto.
Qed.

Lemma same_structure_eq (a b : Expression) : same_structure a b -> a = b.
Proof.
  revert b.
  induction a as [v | l IHl op r IHr | name a IHa | name v];
    intros [w | l' op' r' | name' a' | name' w]; simpl; try contradiction.
  - now intros ->.
  - intros (Hl & -> & Hr). now rewrite (IHl _ Hl), (IHr _ Hr).
  - intros (-> & Ha). now rewrite (IHa _ Ha).
  - now intros (-> & ->).
Qed.

Lemma copy_same_structure_on_char_tags (e : Expression) :
  char_tags e -> same_structure e (copy e).
Proof.
  intros He. rewrite (copy_fixes_char_tags e He). apply same_structure_refl.
Qed.

Lemma evaluate_copy_on_char_tags (e : Expression) :
  char_tags e -> evaluate (copy e) = evaluate e.
Proof. intros He. now rewrite (copy_fixes_char_tags e He). Qed.

(** ** Nested calls *)

Lemma height_pos (e : Expression) : (1 <= height e)%nat.
Proof. destruct e; simpl; lia. Qed.

Lemma transform_copy_enough (e : Expression) :
  forall fuel, (height e <= fuel)%nat ->
  transform fuel CopySyntaxTree e = Some (copy e).
Proof.
  induction e as [v | l IHl op r IHr | name a IHa | name v];
    intros [| fuel] Hfuel; simpl in Hfuel; try lia; simpl.
  - reflexivity.
  - rewrite (IHl fuel) by lia. simpl. rewrite (IHr fuel) by lia. reflexivity.
  - rewrite (IHa fuel) by lia. reflexivity.
  - reflexivity.
Qed.

Lemma transform_copy_short (e : Expression) :
  forall fuel, (fuel < height e)%nat ->
  transform fuel CopySyntaxTree e = None.
Proof.
  induction e as [v | l IHl op r IHr | name a IHa | name v];
    intros [| fuel] Hfuel; simpl in Hfuel; try lia; try reflexivity; simpl.
  - destruct (Nat.max_spec (height l) (height r)) as [[_ Hm] | [_ Hm]].
    + destruct (transform fuel CopySyntaxTree l); simpl; [| reflexivity].
      rewrite (IHr fuel) by lia. reflexivity.
    + rewrite (IHl fuel) by lia. reflexivity.
  - rewrite (IHa fuel) by lia. reflexivity.
Qed.

Lemma evaluate_within_enough (e : Expression) :
  forall fuel, (height e <= fuel)%nat ->
  evaluate_within fuel e = Some (evaluate e).
Proof.
  induction e as [v | l IHl op r IHr | name a IHa | name v];
    intros [| fuel] Hfuel; simpl in Hfuel; try lia; simpl.
  - reflexivity.
  - rewrite (IHl fuel) by lia. simpl. rewrite (IHr fuel) by lia. reflexivity.
  - rewrite (IHa fuel) by lia. reflexivity.
  - reflexivity.
Qed.

Lemma float_neq_by_zero_test (x y : double) :
  PrimFloat.is_zero x <> PrimFloat.is_zero y -> x <> y.
Proof. intros H ->. now apply H. Qed.

(** ** The demo tree *)

Example callAbs_result : evaluate callAbs = 40%float.
Proof. reflexivity. Qed.

Example callAbs_newResult :
  transform 5 CopySyntaxTree callAbs = Some callAbs /\
  evaluate (copy callAbs) = 40%float.
Proof. split; reflexivity. Qed.

(** ** Evaluation of the node classes *)

(** C3: for all [double]s a and b (finite ones among them), a
    BinaryOperation over Number(a) and Number(b) evaluates to a + b, a - b,
    a * b or a / b according to its tag, the division being the IEEE 754
    binary64 one; BinaryOperation(Number(1.0), '/', Number(0.0)) evaluates to
    positive infinity, which is not 0.0. *)
Theorem binary_operation_of_numbers (a b : double) :
  evaluate (BinaryOperation (Number a) PLUS (Number b)) = (a + b)%float /\
  evaluate (BinaryOperation (Number a) MINUS (Number b)) = (a - b)%float /\
  evaluate (BinaryOperation (Number a) MUL (Number b)) = (a * b)%float /\
  evaluate (BinaryOperation (Number a) DIV (Number b)) = (a / b)%float /\
  Prim2SF (evaluate (BinaryOperation (Number a) DIV (Number b)))
    = SF64div (Prim2SF a) (Prim2SF b) /\
  evaluate (BinaryOperation (Number 1%float) DIV (Number 0%float)) = infinity /\
  Prim2SF (evaluate (BinaryOperation (Number 1%float) DIV (Number 0%float)))
    = S754_infinity false /\
  evaluate (BinaryOperation (Number 1%float) DIV (Number 0%float)) <> 0%float.
Proof.
  repeat split; try reflexivity.
  - simpl. apply div_spec.
  - apply float_neq_by_zero_test. vm_compute. discriminate.
Qed.

(** C4: FunctionCall("sqrt", Number(x)) evaluates to the square root of x
    (for x >= 0 and for every other x as well) and FunctionCall("abs",
    Number(x)) to the absolute value of x, for every x, integral or not: the
    results are the IEEE 754 square root of x and x with its sign cleared. *)
Theorem function_call_of_number (x : double) :
  evaluate (FunctionCall "sqrt" (Number x)) = sqrt x /\
  evaluate (FunctionCall "abs" (Number x)) = abs x /\
  Prim2SF (evaluate (FunctionCall "sqrt" (Number x))) = SF64sqrt (Prim2SF x) /\
  Prim2SF (evaluate (FunctionCall "abs" (Number x))) = SFabs (Prim2SF x).
Proof.
  repeat split; simpl.
  - apply sqrt_spec.
  - apply abs_spec.
Qed.

Example abs_of_fractions :
  evaluate (FunctionCall "abs" (Number (-2.5)%float)) = 2.5%float /\
  evaluate (FunctionCall "abs" (Number 0.75%float)) = 0.75%float /\
  evaluate (FunctionCall "sqrt" (Number 16%float)) = 4%float /\
  evaluate (FunctionCall "sqrt" (Number 0.25%float)) = 0.5%float.
Proof. repeat split; reflexivity. Qed.

(** C6: whatever the children l and r, a BinaryOperation whose tag is none
    of '+', '-', '/', '*' evaluates to 0.0. *)
Theorem unknown_operator_evaluates_to_zero (l r : Expression) (op : Z) :
  ~ known_operator op -> evaluate (BinaryOperation l op r) = 0%float.
Proof.
  intros Hop. destruct (unknown_operator_tests op Hop) as (H1 & H2 & H3 & H4).
  simpl. now rewrite H1, H2, H3, H4.
Qed.

Lemma unknown_operator_evaluates_to_zero_witness :
  ~ known_operator 299 /\
  evaluate (BinaryOperation (Number 1%float) 299 (Number 2%float)) = 0%float.
Proof.
  assert (H : ~ known_operator 299)
    by (intros [H | [H | [H | H]]]; discriminate H).
  split; [exact H |].
  exact (unknown_operator_evaluates_to_zero
           (Number 1%float) (Number 2%float) 299 H).
Defined.

(** C7: whatever the argument e, a FunctionCall whose name is neither "sqrt"
    nor "abs" evaluates to 0.0. *)
Theorem unknown_function_evaluates_to_zero (name : string) (e : Expression) :
  name <> "sqrt"%string -> name <> "abs"%string ->
  evaluate (FunctionCall name e) = 0%float.
Proof.
  intros Hsqrt Habs. simpl.
  apply String.eqb_neq in Hsqrt, Habs. now rewrite Hsqrt, Habs.
Qed.

Lemma unknown_function_evaluates_to_zero_witness :
  "bogus"%string <> "sqrt"%string /\ "bogus"%string <> "abs"%string /\
  evaluate (FunctionCall "bogus" (Number 1%float)) = 0%float.
Proof.
  assert (Hsqrt : "bogus"%string <> "sqrt"%string) by discriminate.
  assert (Habs : "bogus"%string <> "abs"%string) by discriminate.
  split; [exact Hsqrt | split; [exact Habs |]].
  exact (unknown_function_evaluates_to_zero
           "bogus" (Number 1%float) Hsqrt Habs).
Defined.

(** C8: Variable(name, v) evaluates to v itself, whatever the name; the
    value comes from the node alone ([evaluate] reads nothing else), also
    when the call goes through the bounded dispatch. *)
Theorem variable_evaluates_to_its_value (name name' : string) (v : double) :
  evaluate (Variable_ name v) = v /\
  evaluate (Variable_ name' v) = evaluate (Variable_ name v) /\
  forall fuel, evaluate_within (S fuel) (Variable_ name v) = Some v.
Proof. repeat split. Qed.

(** C10: names are not constrained.  Variable("", v) is a node and evaluates
    to v; FunctionCall("", e) is a node and evaluates to 0.0, the empty name
    being neither "sqrt" nor "abs". *)
Theorem empty_names_are_accepted (v : double) (e : Expression) :
  evaluate (Variable_ "" v) = v /\
  evaluate (FunctionCall "" e) = 0%float /\
  transform (S (height e)) CopySyntaxTree (FunctionCall "" e)
    = Some (FunctionCall "" (copy e)) /\
  transform 1 CopySyntaxTree (Variable_ "" v) = Some (Variable_ "" v).
Proof.
  repeat split.
  change (S (height e)) with (height (FunctionCall "" e)).
  now rewrite transform_copy_enough.
Qed.

(** ** Construction *)

(** C5, as the spec states it, read on the model: every BinaryOperation node
    holds one of the four known tags.  It fails: the tag is an [int], the
    constructor stores it unchecked, and the node with tag 0 exists. *)
Lemma unknown_tag_is_constructible :
  is_int 0 /\ ~ known_operator 0 /\
  stored_op (BinaryOperation (Number 1%float) 0 (Number 2%float)) = Some 0 /\
  ~ (forall (e : Expression) (op : Z),
        stored_op e = Some op -> known_operator op).
Proof.
  assert (H0 : ~ known_operator 0)
    by (intros [H | [H | [H | H]]]; discriminate H).
  repeat split.
  - discriminate.
  - discriminate.
  - exact H0.
  - intros Hall.
    exact (H0 (Hall (BinaryOperation (Number 1%float) 0 (Number 2%float)) 0
                 eq_refl)).
Qed.

(** C5, amended: a BinaryOperation whose tag is outside the four known
    values can be constructed.  The constructor stores any tag as it is
    given, and the unknown tag only shows when the node is evaluated, to
    0.0. *)
Theorem unknown_tag_is_stored (l r : Expression) (op : Z) :
  known_operatorb op = false ->
  stored_op (BinaryOperation l op r) = Some op /\
  evaluate (BinaryOperation l op r) = 0%float.
Proof.
  intros Hop. split; [reflexivity |].
  unfold known_operatorb in Hop. rewrite !orb_false_iff in Hop.
  destruct Hop as (((HP & HM) & HD) & HX).
  simpl. now rewrite HP, HM, HD, HX.
Qed.

Lemma unknown_tag_is_stored_witness :
  known_operatorb 63 = false /\
  stored_op (BinaryOperation (Number 1%float) 63 (Number 2%float)) = Some 63 /\
  evaluate (BinaryOperation (Number 1%float) 63 (Number 2%float)) = 0%float.
Proof.
  split; [reflexivity |].
  exact (unknown_tag_is_stored (Number 1%float) (Number 2%float) 63 eq_refl).
Defined.

(** ** The copy *)

Lemma copy_fixes_iff_char_tags (e : Expression) : copy e = e <-> char_tags e.
Proof.
  split; [| apply copy_fixes_char_tags].
  intros <-. apply copy_has_char_tags.
Qed.

Lemma wide_tag_under_unsigned_char : int_to_uchar 299 = PLUS.
Proof. reflexivity. Qed.

(** C1 fails on the tree [wide_tag], BinaryOperation(Number(1.0), 299,
    Number(2.0)): evaluated, it takes the default branch and gives 0.0; its
    copy holds the tag 299 cut down to a [char], which is '+', and gives
    3.0. *)
Theorem copy_of_wide_tag_evaluates_differently :
  is_int 299 /\
  evaluate wide_tag = 0%float /\
  transform 2 CopySyntaxTree wide_tag
    = Some (BinaryOperation (Number 1%float) PLUS (Number 2%float)) /\
  evaluate (copy wide_tag) = 3%float /\
  evaluate (copy wide_tag) <> evaluate wide_tag.
Proof.
  split; [split; discriminate |].
  split; [reflexivity |].
  split; [reflexivity |].
  split; [reflexivity |].
  apply float_neq_by_zero_test. vm_compute. discriminate.
Qed.

(** C2 fails on the same tree [wide_tag]: the BinaryOperation at the root of
    the copy holds the tag '+' where the source holds 299, so the two trees
    do not have the same structure. *)
Theorem copy_of_wide_tag_has_another_tag :
  stored_op wide_tag = Some 299 /\
  stored_op (copy wide_tag) = Some PLUS /\
  ~ same_structure wide_tag (copy wide_tag).
Proof.
  repeat split. simpl. intros (_ & H & _). discriminate H.
Qed.

(** ** Termination *)

(** C9: on every tree both [evaluate] and the transformation by
    [CopySyntaxTree] return: as many nested calls as the tree is high are
    enough (and any more change nothing), and the recursion is the
    structural one, [evaluate] and [copy]. *)
Theorem evaluate_and_copy_terminate (e : Expression) (more : nat) :
  evaluate_within (height e + more) e = Some (evaluate e) /\
  transform (height e + more) CopySyntaxTree e = Some (copy e).
Proof.
  split.
  - apply evaluate_within_enough. lia.
  - apply transform_copy_enough. lia.
Qed.

(** ** More on the copy *)

Lemma known_tags_are_char_tags (e : Expression) : known_tags e -> char_tags e.
Proof.
  induction e as [v | l IHl op r IHr | name a IHa | name v]; simpl; auto.
  intros (Hl & Hop & Hr).
  split; [auto | split; [now apply known_operator_is_char | auto]].
Qed.

Lemma height_copy (e : Expression) : height (copy e) = height e.
Proof.
  induction e as [v | l IHl op r IHr | name a IHa | name v]; simpl; congruence.
Qed.

Lemma evaluate_within_short (e : Expression) :
  forall fuel, (fuel < height e)%nat -> evaluate_within fuel e = None.
Proof.
  induction e as [v | l IHl op r IHr | name a IHa | name v];
    intros [| fuel] Hfuel; simpl in Hfuel; try lia; try reflexivity; simpl.
  - destruct (Nat.max_spec (height l) (height r)) as [[_ Hm] | [_ Hm]].
    + destruct (evaluate_within fuel l); simpl; [| reflexivity].
      rewrite (IHr fuel) by lia. reflexivity.
    + rewrite (IHl fuel) by lia. reflexivity.
  - rewrite (IHa fuel) by lia. reflexivity.
Qed.

(** X1: the copy is equal to its source exactly when every operator tag of
    the source is the value of a [char]; the same holds for having the same
    structure. *)
Theorem copy_equals_source_iff (e : Expression) :
  (copy e = e <-> char_tags e) /\ (same_structure e (copy e) <-> char_tags e).
Proof.
  split; split.
  - intros <-. apply copy_has_char_tags.
  - apply copy_fixes_char_tags.
  - intros H. apply same_structure_eq in H. rewrite H. apply copy_has_char_tags.
  - apply copy_same_structure_on_char_tags.
Qed.

(** X2: on a tree built with the four operators only, the transformation by
    [CopySyntaxTree] returns a tree equal to the source, which evaluates to
    the same value. *)
Theorem copy_of_known_tags (e : Expression) (more : nat) :
  known_tags e ->
  transform (height e + more) CopySyntaxTree e = Some e /\
  evaluate (copy e) = evaluate e.
Proof.
  intros He. apply known_tags_are_char_tags in He.
  rewrite transform_copy_enough by lia.
  now rewrite (copy_fixes_char_tags e He).
Qed.

Lemma copy_of_known_tags_witness :
  known_tags callAbs /\
  transform (height callAbs + 0) CopySyntaxTree callAbs = Some callAbs /\
  evaluate (copy callAbs) = evaluate callAbs.
Proof.
  assert (H : known_tags callAbs).
  { simpl. unfold known_operator. tauto. }
  split; [exact H | exact (copy_of_known_tags callAbs 0 H)].
Defined.

(** X3: copying is idempotent.  A copy has only [char] tags and the height
    of its source, so copying it again, with as many nested calls, returns
    an equal tree. *)
Theorem copy_of_copy (e : Expression) (more : nat) :
  copy (copy e) = copy e /\
  transform (height e + more) CopySyntaxTree (copy e) = Some (copy e).
Proof.
  split; [apply copy_copy |].
  rewrite transform_copy_enough by (rewrite height_copy; lia).
  now rewrite copy_copy.
Qed.

(** X4: the copy has the classes, names and values of the source at the
    same places and the same height; each of its tags is the tag of the
    source as [operation()] returns it, so the accessor returns the same
    [char] on both. *)
Theorem copy_narrows_tags (e : Expression) :
  narrowed e (copy e) /\ height (copy e) = height e /\
  forall op, stored_op e = Some op ->
    exists op', stored_op (copy e) = Some op' /\ operation op' = operation op.
Proof.
  split; [| split; [apply height_copy |]].
  - induction e as [v | l IHl op r IHr | name a IHa | name v]; simpl; auto.
  - destruct e as [v | l op0 r | name a | name v]; simpl; try discriminate.
    intros op [= ->]. exists (operation op). split; [reflexivity |].
    unfold operation. apply int_to_char_fixes_char, int_to_char_is_char.
Qed.

(** X5: the calls nest exactly as deep as the tree is high.  With fewer
    nested calls allowed neither [evaluate] nor the transformation returns;
    with that many or more both return the results of the structural
    recursions. *)
Theorem nested_calls_are_the_height (e : Expression) (fuel : nat) :
  evaluate_within fuel e
    = (if (height e <=? fuel)%nat then Some (evaluate e) else None) /\
  transform fuel CopySyntaxTree e
    = (if (height e <=? fuel)%nat then Some (copy e) else None).
Proof.
  destruct (Nat.leb_spec (height e) fuel) as [H | H]; split.
  - now apply evaluate_within_enough.
  - now apply transform_copy_enough.
  - now apply evaluate_within_short.
  - now apply transform_copy_short.
Qed.

(** X6: a tag that differs from a known operator by a non-zero multiple of
    256 is unknown to [evaluate], which gives 0.0, but the copy holds the
    known operator itself and evaluates as that operation. *)
Theorem copy_revives_wrapped_tag (l r : Expression) (op k : Z) :
  known_operator op -> k <> 0 ->
  evaluate (BinaryOperation l (op + 256 * k) r) = 0%float /\
  copy (BinaryOperation l (op + 256 * k) r)
    = BinaryOperation (copy l) op (copy r) /\
  evaluate (copy (BinaryOperation l (op + 256 * k) r))
    = apply_operator op (evaluate (copy l)) (evaluate (copy r)).
Proof.
  intros Hop Hk.
  assert (Hc : is_char op) by now apply known_operator_is_char.
  assert (Hn : int_to_char (op + 256 * k) = op).
  { unfold int_to_char.
    replace (op + 256 * k + 128) with (op + 128 + k * 256) by lia.
    rewrite Z.mod_add by lia. now apply int_to_char_fixes_char. }
  assert (Hu : ~ known_operator (op + 256 * k)).
  { intros Hk'. apply known_operator_is_char in Hk'.
    unfold is_char in Hc, Hk'. lia. }
  destruct (unknown_operator_tests _ Hu) as (H1 & H2 & H3 & H4).
  split; [| split].
  - simpl. now rewrite H1, H2, H3, H4.
  - simpl. unfold operation. now rewrite Hn.
  - simpl. unfold operation. now rewrite Hn.
Qed.

Lemma copy_revives_wrapped_tag_witness :
  known_operator PLUS /\ 1 <> 0 /\
  evaluate (BinaryOperation (Number 1%float) (PLUS + 256 * 1) (Number 2%float))
    = 0%float /\
  copy (BinaryOperation (Number 1%float) (PLUS + 256 * 1) (Number 2%float))
    = BinaryOperation (copy (Number 1%float)) PLUS (copy (Number 2%float)) /\
  evaluate
    (copy (BinaryOperation (Number 1%float) (PLUS + 256 * 1) (Number 2%float)))
    = apply_operator PLUS (evaluate (copy (Number 1%float)))
        (evaluate (copy (Number 2%float))).
Proof.
  assert (Hop : known_operator PLUS) by (left; reflexivity).
  assert (Hk : 1 <> 0) by discriminate.
  split; [exact Hop | split; [exact Hk |]].
  exact (copy_revives_wrapped_tag (Number 1%float) (Number 2%float) PLUS 1
           Hop Hk).
Defined.

(** ** Trees in memory *)

Lemma evaluate_apply_operator (l r : Expression) (op : Z) :
  evaluate (BinaryOperation l op r)
    = apply_operator op (evaluate l) (evaluate r).
Proof. reflexivity. Qed.

Lemma evaluate_apply_function (name : string) (e : Expression) :
  evaluate (FunctionCall name e) = apply_function name (evaluate e).
Proof. reflexivity. Qed.

Lemma holds_root (s : store) (p : ptr) (e : Expression) :
  holds s p e -> exists a, p = Some a /\ is_Some (s !! a).
Proof.
  intros [a v | a sl sr pl pr l r op _ _ _ _ _ | a sa pa e' name _ _ | a name v];
    exists a; split; try reflexivity.
  - rewrite lookup_singleton_eq. eauto.
  - rewrite lookup_insert_eq. eauto.
  - rewrite lookup_insert_eq. eauto.
  - rewrite lookup_singleton_eq. eauto.
Qed.

Lemma children_within (a : addr) (o : object) (sl sr : store) :
  sl ##ₘ sr -> sl !! a = None -> sr !! a = None ->
  sl ⊆ <[a := o]> (sl ∪ sr) /\ sr ⊆ <[a := o]> (sl ∪ sr).
Proof.
  intros Hd Hl Hr.
  assert (Hu : (sl ∪ sr) !! a = None) by now apply lookup_union_None.
  split.
  - etrans; [apply map_union_subseteq_l | now apply insert_subseteq].
  - etrans; [now apply map_union_subseteq_r | now apply insert_subseteq].
Qed.

Lemma evaluate_at_holds (s : store) (p : ptr) (e : Expression) :
  holds s p e ->
  forall (s' : store) (fuel : nat),
    s ⊆ s' -> (height e <= fuel)%nat ->
    evaluate_at fuel s' p = Some (evaluate e).
Proof.
  induction 1 as [a v | a sl sr pl pr l r op Hl IHl Hr IHr Hd Hal Har
                 | a sa pa e name Ha IHa Haa | a name v];
    intros s' [| fuel] Hsub Hfuel; simpl in Hfuel; try lia.
  - simpl. erewrite lookup_weaken; [| apply lookup_singleton_eq | done]. done.
  - destruct (children_within a (OBinaryOperation pl pr op) sl sr Hd Hal Har)
      as [Hsl Hsr].
    cbn [evaluate_at].
    erewrite lookup_weaken; [| apply lookup_insert_eq | done]. cbv beta iota.
    rewrite (IHl s' fuel) by (try (etrans; [exact Hsl | exact Hsub]); lia).
    simpl.
    rewrite (IHr s' fuel) by (try (etrans; [exact Hsr | exact Hsub]); lia).
    reflexivity.
  - cbn [evaluate_at].
    erewrite lookup_weaken; [| apply lookup_insert_eq | done]. cbv beta iota.
    rewrite (IHa s' fuel); [reflexivity | | lia].
    etrans; [apply (insert_subseteq sa a); exact Haa | exact Hsub].
  - simpl. erewrite lookup_weaken; [| apply lookup_singleton_eq | done]. done.
Qed.

Lemma delete_at_leaf (fuel : nat) (a : addr) (s : store) (o : object) :
  s !! a = Some o ->
  match o with ONumber _ | OVariable _ _ => True | _ => False end ->
  delete_at (S fuel) (Some a) s = Some (tt, delete a s).
Proof.
  intros Ha Ho. cbn [delete_at]. unfold run_bind, load, free, run_ret.
  rewrite Ha. destruct o; try contradiction; now rewrite Ha.
Qed.

Lemma delete_at_BinaryOperation (fuel : nat) (a : addr) (s s1 s2 : store)
    (pl pr : ptr) (op : Z) :
  s !! a = Some (OBinaryOperation pl pr op) ->
  delete_at fuel pl s = Some (tt, s1) ->
  delete_at fuel pr s1 = Some (tt, s2) ->
  delete_at (S fuel) (Some a) s = free a s2.
Proof.
  intros Ha Hl Hr. cbn [delete_at]. unfold run_bind, load.
  now rewrite Ha, Hl, Hr.
Qed.

Lemma delete_at_FunctionCall (fuel : nat) (a : addr) (s s1 : store)
    (name : string) (pa : ptr) :
  s !! a = Some (OFunctionCall name pa) ->
  delete_at fuel pa s = Some (tt, s1) ->
  delete_at (S fuel) (Some a) s = free a s1.
Proof.
  intros Ha Harg. cbn [delete_at]. unfold run_bind, load.
  now rewrite Ha, Harg.
Qed.

Lemma free_inserted (a : addr) (o : object) (rest : store) :
  rest !! a = None -> free a (<[a := o]> rest) = Some (tt, rest).
Proof.
  intros Ha. unfold free. rewrite lookup_insert_eq.
  now rewrite delete_insert_id.
Qed.

Lemma delete_at_holds (s : store) (p : ptr) (e : Expression) :
  holds s p e ->
  forall (rest : store) (fuel : nat),
    s ##ₘ rest -> (height e <= fuel)%nat ->
    delete_at fuel p (s ∪ rest) = Some (tt, rest).
Proof.
  induction 1 as [a v | a sl sr pl pr l r op Hl IHl Hr IHr Hd Hal Har
                 | a sa pa e name Ha IHa Haa | a name v];
    intros rest [| fuel] Hdis Hfuel; simpl in Hfuel; try lia.
  - apply map_disjoint_singleton_l in Hdis.
    rewrite <- insert_union_singleton_l.
    rewrite (delete_at_leaf fuel a _ (ONumber v)); [| apply lookup_insert_eq | done].
    now rewrite delete_insert_id.
  - apply map_disjoint_insert_l in Hdis as [Harest Hdis].
    apply map_disjoint_union_l in Hdis as [Hlrest Hrrest].
    set (o := OBinaryOperation pl pr op).
    rewrite <- insert_union_l.
    rewrite (delete_at_BinaryOperation fuel a _
               (sr ∪ <[a := o]> rest) (<[a := o]> rest) pl pr op).
    + now apply free_inserted.
    + apply lookup_insert_eq.
    + replace (<[a := o]> (sl ∪ sr ∪ rest))
        with (sl ∪ (sr ∪ <[a := o]> rest)).
      * apply IHl; [| lia].
        apply map_disjoint_union_r. split; [done |].
        now apply map_disjoint_insert_r.
      * rewrite <- (insert_union_r sr rest) by done.
        rewrite <- insert_union_r by done.
        now rewrite map_union_assoc.
    + apply IHr; [| lia]. now apply map_disjoint_insert_r.
  - apply map_disjoint_insert_l in Hdis as [Harest Hdis].
    set (o := OFunctionCall name pa).
    rewrite <- insert_union_l.
    rewrite (delete_at_FunctionCall fuel a _ (<[a := o]> rest) name pa).
    + now apply free_inserted.
    + apply lookup_insert_eq.
    + replace (<[a := o]> (sa ∪ rest)) with (sa ∪ <[a := o]> rest)
        by (now rewrite <- insert_union_r).
      apply IHa; [| lia]. now apply map_disjoint_insert_r.
  - apply map_disjoint_singleton_l in Hdis.
    rewrite <- insert_union_singleton_l.
    rewrite (delete_at_leaf fuel a _ (OVariable name v)); [| apply lookup_insert_eq | done].
    now rewrite delete_insert_id.
Qed.

Section Copying.

Variable alloc : store -> addr.

(** [new] returns storage that no live object occupies. *)
Hypothesis alloc_fresh : forall s : store, s !! alloc s = None.

Lemma new_spec (o : object) (s : store) :
  new alloc o s = Some (Some (alloc s), {[alloc s := o]} ∪ s) /\
  {[alloc s := o]} ##ₘ s.
Proof.
  split.
  - unfold new. now rewrite insert_union_singleton_l.
  - apply map_disjoint_singleton_l, alloc_fresh.
Qed.

Lemma transform_at_BinaryOperation (fuel : nat) (a : addr) (s s1 s2 : store)
    (pl pr ql qr : ptr) (op : Z) :
  s !! a = Some (OBinaryOperation pl pr op) ->
  transform_at alloc fuel pl s = Some (ql, s1) ->
  transform_at alloc fuel pr s1 = Some (qr, s2) ->
  transform_at alloc (S fuel) (Some a) s
    = new alloc (OBinaryOperation ql qr (operation op)) s2.
Proof.
  intros Ha Hl Hr. cbn [transform_at]. unfold run_bind, load.
  now rewrite Ha, Hl, Hr.
Qed.

Lemma transform_at_FunctionCall (fuel : nat) (a : addr) (s s1 : store)
    (name : string) (pa qa : ptr) :
  s !! a = Some (OFunctionCall name pa) ->
  transform_at alloc fuel pa s = Some (qa, s1) ->
  transform_at alloc (S fuel) (Some a) s
    = new alloc (OFunctionCall name qa) s1.
Proof.
  intros Ha Harg. cbn [transform_at]. unfold run_bind, load.
  now rewrite Ha, Harg.
Qed.

Lemma transform_at_leaf (fuel : nat) (a : addr) (s : store) (o : object) :
  s !! a = Some o ->
  match o with ONumber _ | OVariable _ _ => True | _ => False end ->
  transform_at alloc (S fuel) (Some a) s = new alloc o s.
Proof.
  intros Ha Ho. cbn [transform_at]. unfold run_bind, load.
  rewrite Ha. destruct o; try contradiction; reflexivity.
Qed.

Lemma transform_at_holds (s : store) (p : ptr) (e : Expression) :
  holds s p e ->
  forall (s' : store) (fuel : nat),
    s ⊆ s' -> (height e <= fuel)%nat ->
    exists (q : ptr) (c : store),
      transform_at alloc fuel p s' = Some (q, c ∪ s') /\
      c ##ₘ s' /\ holds c q (copy e).
Proof.
  induction 1 as [a v | a sl sr pl pr l r op Hl IHl Hr IHr Hd Hal Har
                 | a sa pa e name Ha IHa Haa | a name v];
    intros s' [| fuel] Hsub Hfuel; simpl in Hfuel; try lia.
  - exists (Some (alloc s')), {[alloc s' := ONumber v]}.
    rewrite (transform_at_leaf fuel a s' (ONumber v)); [| | done].
    2:{ eapply lookup_weaken; [apply lookup_singleton_eq | done]. }
    destruct (new_spec (ONumber v) s') as [-> Hn].
    split; [done | split; [done | constructor]].
  - destruct (children_within a (OBinaryOperation pl pr op) sl sr Hd Hal Har)
      as [Hsl Hsr].
    destruct (IHl s' fuel) as (ql & cl & Htl & Hdl & Hcl);
      [etrans; [exact Hsl | exact Hsub] | lia |].
    destruct (IHr (cl ∪ s') fuel) as (qr & cr & Htr & Hdr & Hcr);
      [| lia |].
    { etrans; [exact Hsr |]. etrans; [exact Hsub |].
      now apply map_union_subseteq_r. }
    set (s2 := cr ∪ (cl ∪ s')) in *.
    set (o := OBinaryOperation ql qr (operation op)).
    pose proof (alloc_fresh s2) as Hfresh. unfold s2 in Hfresh.
    apply lookup_union_None in Hfresh as [Hfr Hfresh].
    apply lookup_union_None in Hfresh as [Hfl Hfs].
    apply map_disjoint_union_r in Hdr as [Hdrl Hdrs].
    exists (Some (alloc s2)), (<[alloc s2 := o]> (cl ∪ cr)).
    split; [| split].
    + rewrite (transform_at_BinaryOperation fuel a s' (cl ∪ s') s2
                 pl pr ql qr op); [| | done | done].
      2:{ eapply lookup_weaken; [apply lookup_insert_eq | done]. }
      unfold new. cbv zeta. fold o. f_equal. f_equal.
      rewrite <- insert_union_l. f_equal. unfold s2.
      rewrite map_union_assoc. f_equal. now apply map_union_comm.
    + apply map_disjoint_insert_l. split; [done |].
      now apply map_disjoint_union_l.
    + simpl. unfold o. constructor; done.
  - destruct (IHa s' fuel) as (qa & ca & Hta & Hda & Hca); [| lia |].
    { etrans; [apply (insert_subseteq sa a); exact Haa | exact Hsub]. }
    set (s1 := ca ∪ s') in *.
    set (o := OFunctionCall name qa).
    pose proof (alloc_fresh s1) as Hfresh. unfold s1 in Hfresh.
    apply lookup_union_None in Hfresh as [Hfa Hfs].
    exists (Some (alloc s1)), (<[alloc s1 := o]> ca).
    split; [| split].
    + rewrite (transform_at_FunctionCall fuel a s' s1 name pa qa);
        [| | done].
      2:{ eapply lookup_weaken; [apply lookup_insert_eq | done]. }
      unfold new. cbv zeta. fold o. f_equal. f_equal.
      now rewrite <- insert_union_l.
    + apply map_disjoint_insert_l. split; done.
    + simpl. unfold o. constructor; done.
  - exists (Some (alloc s')), {[alloc s' := OVariable name v]}.
    rewrite (transform_at_leaf fuel a s' (OVariable name v)); [| | done].
    2:{ eapply lookup_weaken; [apply lookup_singleton_eq | done]. }
    destruct (new_spec (OVariable name v) s') as [-> Hn].
    split; [done | split; [done | constructor]].
Qed.

End Copying.

(** ** Ownership *)

Lemma first_free_fresh (s : store) : s !! first_free s = None.
Proof. apply not_elem_of_dom. exact (is_fresh (dom s)). Qed.

Lemma abs_store_holds : holds abs_store (Some 2%positive) abs_tree.
Proof. unfold abs_store, abs_tree. constructor; [constructor | done]. Qed.

Lemma delete_at_left_fails (fuel : nat) (a : addr) (s : store)
    (pl pr : ptr) (op : Z) :
  s !! a = Some (OBinaryOperation pl pr op) ->
  delete_at fuel pl s = None ->
  delete_at (S fuel) (Some a) s = None.
Proof.
  intros Ha Hl. cbn [delete_at]. unfold run_bind, load. now rewrite Ha, Hl.
Qed.

Lemma delete_at_right_fails (fuel : nat) (a : addr) (s s1 : store)
    (pl pr : ptr) (op : Z) :
  s !! a = Some (OBinaryOperation pl pr op) ->
  delete_at fuel pl s = Some (tt, s1) ->
  delete_at fuel pr s1 = None ->
  delete_at (S fuel) (Some a) s = None.
Proof.
  intros Ha Hl Hr. cbn [delete_at]. unfold run_bind, load.
  now rewrite Ha, Hl, Hr.
Qed.

Lemma delete_at_arg_fails (fuel : nat) (a : addr) (s : store)
    (name : string) (pa : ptr) :
  s !! a = Some (OFunctionCall name pa) ->
  delete_at fuel pa s = None ->
  delete_at (S fuel) (Some a) s = None.
Proof.
  intros Ha Harg. cbn [delete_at]. unfold run_bind, load.
  now rewrite Ha, Harg.
Qed.

Lemma delete_at_short (s : store) (p : ptr) (e : Expression) :
  holds s p e ->
  forall (rest : store) (fuel : nat),
    s ##ₘ rest -> (fuel < height e)%nat ->
    delete_at fuel p (s ∪ rest) = None.
Proof.
  induction 1 as [a v | a sl sr pl pr l r op Hl IHl Hr IHr Hd Hal Har
                 | a sa pa e name Ha IHa Haa | a name v];
    intros rest [| fuel] Hdis Hfuel; simpl in Hfuel; try lia; try reflexivity.
  - apply map_disjoint_insert_l in Hdis as [Harest Hdis].
    apply map_disjoint_union_l in Hdis as [Hlrest Hrrest].
    set (o := OBinaryOperation pl pr op).
    assert (Hshape : <[a := o]> (sl ∪ sr) ∪ rest
                     = sl ∪ (sr ∪ <[a := o]> rest)).
    { rewrite <- insert_union_l.
      rewrite <- (insert_union_r sr rest) by done.
      rewrite <- insert_union_r by done.
      now rewrite map_union_assoc. }
    assert (Hlfr : sl ##ₘ sr ∪ <[a := o]> rest).
    { apply map_disjoint_union_r. split; [done |].
      now apply map_disjoint_insert_r. }
    assert (Hrfr : sr ##ₘ <[a := o]> rest) by now apply map_disjoint_insert_r.
    assert (Hroot : (<[a := o]> (sl ∪ sr) ∪ rest) !! a = Some o).
    { rewrite <- insert_union_l. apply lookup_insert_eq. }
    destruct (Nat.lt_ge_cases fuel (height l)) as [Hshort | Hlong].
    + apply (delete_at_left_fails fuel a _ pl pr op Hroot).
      rewrite Hshape. now apply IHl.
    + apply (delete_at_right_fails fuel a _ (sr ∪ <[a := o]> rest)
               pl pr op Hroot).
      * rewrite Hshape. now apply (delete_at_holds sl pl l Hl).
      * apply IHr; [done | lia].
  - apply map_disjoint_insert_l in Hdis as [Harest Hdis].
    set (o := OFunctionCall name pa).
    assert (Hroot : (<[a := o]> sa ∪ rest) !! a = Some o).
    { rewrite <- insert_union_l. apply lookup_insert_eq. }
    apply (delete_at_arg_fails fuel a _ name pa Hroot).
    replace (<[a := o]> sa ∪ rest) with (sa ∪ <[a := o]> rest).
    2:{ rewrite <- insert_union_l. now rewrite <- insert_union_r. }
    apply IHa; [| lia]. now apply map_disjoint_insert_r.
Qed.

Lemma delete_at_not_live (fuel : nat) (a : addr) (s : store) :
  s !! a = None -> delete_at fuel (Some a) s = None.
Proof.
  intros Ha. destruct fuel as [| fuel]; [reflexivity |].
  cbn [delete_at]. unfold run_bind, load. now rewrite Ha.
Qed.

(** X7: [evaluate] on a tree in memory returns the value of the tree and
    depends on no other object: every store that contains the objects of
    the tree gives the same result. *)
Theorem evaluate_reads_only_its_tree (s s' : store) (p : ptr)
    (e : Expression) (more : nat) :
  holds s p e -> s ⊆ s' ->
  evaluate_at (height e + more) s' p = Some (evaluate e).
Proof.
  intros Hh Hsub. apply (evaluate_at_holds s p e Hh); [done | lia].
Qed.

Lemma evaluate_reads_only_its_tree_witness :
  holds abs_store (Some 2%positive) abs_tree /\ abs_store ⊆ abs_store /\
  evaluate_at (height abs_tree + 0) abs_store (Some 2%positive)
    = Some (evaluate abs_tree).
Proof.
  assert (Hsub : abs_store ⊆ abs_store) by reflexivity.
  split; [exact abs_store_holds | split; [exact Hsub |]].
  exact (evaluate_reads_only_its_tree abs_store abs_store (Some 2%positive)
           abs_tree 0 abs_store_holds Hsub).
Defined.

(** X9: [delete] on the root of a tree releases the objects of the tree,
    each once, and leaves every other object as it was. *)
Theorem delete_releases_the_tree (s rest : store) (p : ptr) (e : Expression)
    (more : nat) :
  holds s p e -> s ##ₘ rest ->
  delete_at (height e + more) p (s ∪ rest) = Some (tt, rest).
Proof.
  intros Hh Hdis. apply (delete_at_holds s p e Hh); [done | lia].
Qed.

Lemma delete_releases_the_tree_witness :
  holds abs_store (Some 2%positive) abs_tree /\ abs_store ##ₘ ∅ /\
  delete_at (height abs_tree + 0) (Some 2%positive) (abs_store ∪ ∅)
    = Some (tt, ∅).
Proof.
  assert (Hdis : abs_store ##ₘ ∅) by apply map_disjoint_empty_r.
  split; [exact abs_store_holds | split; [exact Hdis |]].
  exact (delete_releases_the_tree abs_store ∅ (Some 2%positive) abs_tree 0
           abs_store_holds Hdis).
Defined.

(** X10: a second [delete] on the same root is undefined: once the tree is
    released its root is no live object, whatever the number of nested
    calls allowed. *)
Theorem second_delete_is_undefined (s rest : store) (p : ptr) (e : Expression)
    (more fuel : nat) :
  holds s p e -> s ##ₘ rest ->
  (_ <~ delete_at (height e + more) p ;; delete_at fuel p) (s ∪ rest) = None.
Proof.
  intros Hh Hdis. unfold run_bind.
  rewrite (delete_at_holds s p e Hh) by (done || lia).
  destruct (holds_root s p e Hh) as (a & -> & [o Ho]).
  apply delete_at_not_live. eapply map_disjoint_Some_l; done.
Qed.

Lemma second_delete_is_undefined_witness :
  holds abs_store (Some 2%positive) abs_tree /\ abs_store ##ₘ ∅ /\
  (_ <~ delete_at (height abs_tree + 0) (Some 2%positive) ;;
   delete_at 5 (Some 2%positive)) (abs_store ∪ ∅) = None.
Proof.
  assert (Hdis : abs_store ##ₘ ∅) by apply map_disjoint_empty_r.
  split; [exact abs_store_holds | split; [exact Hdis |]].
  exact (second_delete_is_undefined abs_store ∅ (Some 2%positive) abs_tree 0 5
           abs_store_holds Hdis).
Defined.

(** X12: a node that holds the same child twice cannot be deleted: the
    destructor deletes the child through [left_], then again through
    [right_], where it is no longer live.  Trees have to own their children
    one by one. *)
Theorem shared_child_is_deleted_twice (s rest : store) (p : ptr)
    (e : Expression) (a : addr) (op : Z) (fuel : nat) :
  holds s p e -> s ##ₘ rest ->
  rest !! a = Some (OBinaryOperation p p op) ->
  delete_at fuel (Some a) (s ∪ rest) = None.
Proof.
  intros Hh Hdis Ha.
  destruct fuel as [| fuel]; [reflexivity |].
  assert (Hroot : (s ∪ rest) !! a = Some (OBinaryOperation p p op)).
  { rewrite (lookup_union_r s rest a); [done |].
    eapply map_disjoint_Some_r; done. }
  destruct (Nat.lt_ge_cases fuel (height e)) as [Hshort | Hlong].
  - apply (delete_at_left_fails fuel a _ p p op Hroot).
    now apply (delete_at_short s p e Hh).
  - apply (delete_at_right_fails fuel a _ rest p p op Hroot).
    + now apply (delete_at_holds s p e Hh).
    + destruct (holds_root s p e Hh) as (c & -> & [o Ho]).
      apply delete_at_not_live. eapply map_disjoint_Some_l; done.
Qed.

Lemma shared_child_is_deleted_twice_witness :
  holds {[1%positive := ONumber 1%float]} (Some 1%positive) (Number 1%float) /\
  ({[1%positive := ONumber 1%float]} : store)
    ##ₘ {[2%positive
          := OBinaryOperation (Some 1%positive) (Some 1%positive) PLUS]} /\
  ({[2%positive := OBinaryOperation (Some 1%positive) (Some 1%positive) PLUS]}
     : store) !! 2%positive
    = Some (OBinaryOperation (Some 1%positive) (Some 1%positive) PLUS) /\
  delete_at 3 (Some 2%positive)
    ({[1%positive := ONumber 1%float]}
       ∪ {[2%positive
           := OBinaryOperation (Some 1%positive) (Some 1%positive) PLUS]})
    = None.
Proof.
  assert (Hh : holds {[1%positive := ONumber 1%float]} (Some 1%positive)
                 (Number 1%float)) by constructor.
  assert (Hdis : ({[1%positive := ONumber 1%float]} : store)
            ##ₘ {[2%positive
                  := OBinaryOperation (Some 1%positive) (Some 1%positive) PLUS]}).
  { apply map_disjoint_singleton_l. reflexivity. }
  assert (Ha : ({[2%positive
                  := OBinaryOperation (Some 1%positive) (Some 1%positive) PLUS]}
                  : store) !! 2%positive
               = Some (OBinaryOperation (Some 1%positive) (Some 1%positive) PLUS))
    by reflexivity.
  split; [exact Hh | split; [exact Hdis | split; [exact Ha |]]].
  exact (shared_child_is_deleted_twice _ _ _ _ 2%positive PLUS 3 Hh Hdis Ha).
Defined.

Section Lifecycle.

Variable alloc : store -> addr.

(** [new] returns storage that no live object occupies. *)
Hypothesis alloc_fresh : forall s : store, s !! alloc s = None.

(** X8: the transformation by [CopySyntaxTree] of a tree in memory
    allocates a tree of new objects that holds the copy, and changes no
    object that was live: source and copy share no node, and both can be
    evaluated afterwards. *)
Theorem copy_is_a_new_tree (s s' : store) (p : ptr) (e : Expression)
    (more : nat) :
  holds s p e -> s ⊆ s' ->
  exists (q : ptr) (c : store),
    transform_at alloc (height e + more) p s' = Some (q, c ∪ s') /\
    c ##ₘ s' /\ holds c q (copy e) /\
    evaluate_at (height e + more) (c ∪ s') p = Some (evaluate e) /\
    evaluate_at (height e + more) (c ∪ s') q = Some (evaluate (copy e)).
Proof.
  intros Hh Hsub.
  destruct (transform_at_holds alloc alloc_fresh s p e Hh s'
              (height e + more)) as (q & c & Ht & Hd & Hc); [done | lia |].
  exists q, c. repeat split; try done.
  - apply (evaluate_at_holds s p e Hh); [| lia].
    etrans; [exact Hsub | now apply map_union_subseteq_r].
  - apply (evaluate_at_holds c q (copy e) Hc);
      [apply map_union_subseteq_l | rewrite height_copy; lia].
Qed.

(** X11: what [main] does with its tree.  Copying a tree, deleting the
    source and deleting the copy releases every object of both, each once,
    and leaves the other objects as they were. *)
Theorem copy_then_delete_both (s rest : store) (p : ptr) (e : Expression)
    (more : nat) :
  holds s p e -> s ##ₘ rest ->
  (q <~ transform_at alloc (height e + more) p ;;
   _ <~ delete_at (height e + more) p ;;
   delete_at (height e + more) q) (s ∪ rest) = Some (tt, rest).
Proof.
  intros Hh Hdis.
  destruct (transform_at_holds alloc alloc_fresh s p e Hh (s ∪ rest)
              (height e + more)) as (q & c & Ht & Hd & Hc);
    [apply map_union_subseteq_l | lia |].
  apply map_disjoint_union_r in Hd as [Hcs Hcrest].
  unfold run_bind. rewrite Ht.
  replace (c ∪ (s ∪ rest)) with (s ∪ (c ∪ rest)).
  2:{ rewrite !map_union_assoc. f_equal. now apply map_union_comm. }
  rewrite (delete_at_holds s p e Hh); [| | lia].
  2:{ apply map_disjoint_union_r. split; [now symmetry | done]. }
  apply (delete_at_holds c q (copy e) Hc); [done |].
  rewrite height_copy. lia.
Qed.

(** X13: the copy of a node that holds the same child twice is a tree:
    the child is copied once for [left_] and once for [right_], into
    separate objects, so that the copy, unlike its source, can be
    deleted. *)
Theorem copy_of_shared_child_is_a_tree (s s' : store) (p : ptr)
    (e : Expression) (a : addr) (op : Z) (more : nat) :
  holds s p e -> s ⊆ s' ->
  s' !! a = Some (OBinaryOperation p p op) ->
  exists (q : ptr) (c : store),
    transform_at alloc (S (height e + more)) (Some a) s' = Some (q, c ∪ s') /\
    c ##ₘ s' /\
    holds c q (BinaryOperation (copy e) (operation op) (copy e)) /\
    delete_at (S (height e + more)) q (c ∪ s') = Some (tt, s').
Proof.
  intros Hh Hsub Ha.
  destruct (transform_at_holds alloc alloc_fresh s p e Hh s'
              (height e + more)) as (ql & cl & Htl & Hdl & Hcl);
    [done | lia |].
  destruct (transform_at_holds alloc alloc_fresh s p e Hh (cl ∪ s')
              (height e + more)) as (qr & cr & Htr & Hdr & Hcr);
    [| lia |].
  { etrans; [exact Hsub | now apply map_union_subseteq_r]. }
  set (s2 := cr ∪ (cl ∪ s')) in *.
  set (o := OBinaryOperation ql qr (operation op)).
  pose proof (alloc_fresh s2) as Hfresh. unfold s2 in Hfresh.
  apply lookup_union_None in Hfresh as [Hfr Hfresh].
  apply lookup_union_None in Hfresh as [Hfl Hfs].
  apply map_disjoint_union_r in Hdr as [Hdrl Hdrs].
  assert (Hc : holds (<[alloc s2 := o]> (cl ∪ cr)) (Some (alloc s2))
                 (BinaryOperation (copy e) (operation op) (copy e))).
  { unfold o. constructor; done. }
  assert (Hd : <[alloc s2 := o]> (cl ∪ cr) ##ₘ s').
  { apply map_disjoint_insert_l. split; [done |].
    now apply map_disjoint_union_l. }
  exists (Some (alloc s2)), (<[alloc s2 := o]> (cl ∪ cr)).
  split; [| split; [done | split; [done |]]].
  - rewrite (transform_at_BinaryOperation alloc (height e + more) a s' (cl ∪ s') s2
               p p ql qr op) by done.
    unfold new. cbv zeta. fold o. f_equal. f_equal.
    rewrite <- insert_union_l. f_equal. unfold s2.
    rewrite map_union_assoc. f_equal. now apply map_union_comm.
  - apply (delete_at_holds _ _ _ Hc); [done |].
    simpl. rewrite !height_copy. lia.
Qed.

End Lifecycle.

Lemma shared_store_facts :
  holds {[1%positive := ONumber 1%float]} (Some 1%positive) (Number 1%float) /\
  ({[1%positive := ONumber 1%float]} : store) ⊆ shared_store /\
  shared_store !! 2%positive
    = Some (OBinaryOperation (Some 1%positive) (Some 1%positive) PLUS).
Proof.
  split; [constructor | split].
  - unfold shared_store. now apply insert_subseteq.
  - apply lookup_insert_eq.
Qed.

Lemma copy_is_a_new_tree_witness :
  (forall s : store, s !! first_free s = None) /\
  holds abs_store (Some 2%positive) abs_tree /\ abs_store ⊆ abs_store /\
  exists (q : ptr) (c : store),
    transform_at first_free (height abs_tree + 0) (Some 2%positive) abs_store
      = Some (q, c ∪ abs_store) /\
    c ##ₘ abs_store /\ holds c q (copy abs_tree) /\
    evaluate_at (height abs_tree + 0) (c ∪ abs_store) (Some 2%positive)
      = Some (evaluate abs_tree) /\
    evaluate_at (height abs_tree + 0) (c ∪ abs_store) q
      = Some (evaluate (copy abs_tree)).
Proof.
  assert (Hsub : abs_store ⊆ abs_store) by reflexivity.
  split; [exact first_free_fresh |].
  split; [exact abs_store_holds | split; [exact Hsub |]].
  exact (copy_is_a_new_tree first_free first_free_fresh abs_store abs_store
           (Some 2%positive) abs_tree 0 abs_store_holds Hsub).
Defined.

Lemma copy_then_delete_both_witness :
  (forall s : store, s !! first_free s = None) /\
  holds abs_store (Some 2%positive) abs_tree /\ abs_store ##ₘ ∅ /\
  (q <~ transform_at first_free (height abs_tree + 0) (Some 2%positive) ;;
   _ <~ delete_at (height abs_tree + 0) (Some 2%positive) ;;
   delete_at (height abs_tree + 0) q) (abs_store ∪ ∅) = Some (tt, ∅).
Proof.
  assert (Hdis : abs_store ##ₘ ∅) by apply map_disjoint_empty_r.
  split; [exact first_free_fresh |].
  split; [exact abs_store_holds | split; [exact Hdis |]].
  exact (copy_then_delete_both first_free first_free_fresh abs_store ∅
           (Some 2%positive) abs_tree 0 abs_store_holds Hdis).
Defined.

Lemma copy_of_shared_child_is_a_tree_witness :
  (forall s : store, s !! first_free s = None) /\
  holds {[1%positive := ONumber 1%float]} (Some 1%positive) (Number 1%float) /\
  ({[1%positive := ONumber 1%float]} : store) ⊆ shared_store /\
  shared_store !! 2%positive
    = Some (OBinaryOperation (Some 1%positive) (Some 1%positive) PLUS) /\
  exists (q : ptr) (c : store),
    transform_at first_free (S (height (Number 1%float) + 0)) (Some 2%positive)
      shared_store = Some (q, c ∪ shared_store) /\
    c ##ₘ shared_store /\
    holds c q
      (BinaryOperation (copy (Number 1%float)) (operation PLUS)
         (copy (Number 1%float))) /\
    delete_at (S (height (Number 1%float) + 0)) q (c ∪ shared_store)
      = Some (tt, shared_store).
Proof.
  destruct shared_store_facts as (Hh & Hsub & Ha).
  split; [exact first_free_fresh |].
  split; [exact Hh | split; [exact Hsub | split; [exact Ha |]]].
  exact (copy_of_shared_child_is_a_tree first_free first_free_fresh _ _ _ _
           2%positive PLUS 0 Hh Hsub Ha).
Defined.

Section Construction.

Variable alloc : store -> addr.

(** [new] returns storage that no live object occupies. *)
Hypothesis alloc_fresh : forall s : store, s !! alloc s = None.

Lemma new_leaf_holds (o : object) (e : Expression) (rest : store) :
  (forall a : addr, holds {[a := o]} (Some a) e) ->
  exists a : addr,
    new alloc o rest = Some (Some a, {[a := o]} ∪ rest) /\
    holds {[a := o]} (Some a) e /\ {[a := o]} ##ₘ rest.
Proof.
  intros Hleaf. exists (alloc rest).
  destruct (new_spec alloc alloc_fresh o rest) as [Hn Hd]. done.
Qed.

Lemma new_FunctionCall_holds (sa rest : store) (pa : ptr) (e : Expression)
    (name : string) :
  holds sa pa e -> sa ##ₘ rest ->
  exists a : addr,
    new alloc (OFunctionCall name pa) (sa ∪ rest)
      = Some (Some a, <[a := OFunctionCall name pa]> sa ∪ rest) /\
    holds (<[a := OFunctionCall name pa]> sa) (Some a) (FunctionCall name e) /\
    <[a := OFunctionCall name pa]> sa ##ₘ rest.
Proof.
  intros Hh Hd. exists (alloc (sa ∪ rest)).
  pose proof (alloc_fresh (sa ∪ rest)) as Hf.
  apply lookup_union_None in Hf as [Hfa Hfr].
  split; [| split].
  - unfold new. cbv zeta. now rewrite insert_union_l.
  - now constructor.
  - now apply map_disjoint_insert_l.
Qed.

Lemma new_BinaryOperation_holds (sl sr rest : store) (pl pr : ptr)
    (l r : Expression) (op : Z) :
  holds sl pl l -> holds sr pr r -> sl ##ₘ sr -> sl ∪ sr ##ₘ rest ->
  exists a : addr,
    new alloc (OBinaryOperation pl pr op) (sl ∪ sr ∪ rest)
      = Some (Some a, <[a := OBinaryOperation pl pr op]> (sl ∪ sr) ∪ rest) /\
    holds (<[a := OBinaryOperation pl pr op]> (sl ∪ sr)) (Some a)
      (BinaryOperation l op r) /\
    <[a := OBinaryOperation pl pr op]> (sl ∪ sr) ##ₘ rest.
Proof.
  intros Hl Hr Hd Hrest. exists (alloc (sl ∪ sr ∪ rest)).
  pose proof (alloc_fresh (sl ∪ sr ∪ rest)) as Hf.
  apply lookup_union_None in Hf as [Hf Hfrest].
  pose proof Hf as Hflr. apply lookup_union_None in Hflr as [Hfl Hfr].
  split; [| split].
  - unfold new. cbv zeta. now rewrite insert_union_l.
  - now constructor.
  - now apply map_disjoint_insert_l.
Qed.

(** X14: the constructors take ownership.  [new BinaryOperation(l, op, r)]
    over two separate trees, and [new FunctionCall(name, l)] over a tree,
    add one object and make it the root of the tree with those children;
    no other object changes. *)
Theorem constructors_take_ownership (sl sr rest : store) (pl pr : ptr)
    (l r : Expression) (op : Z) (name : string) :
  holds sl pl l -> holds sr pr r -> sl ##ₘ sr -> sl ∪ sr ##ₘ rest ->
  (exists a : addr,
     new alloc (OBinaryOperation pl pr op) (sl ∪ sr ∪ rest)
       = Some (Some a, <[a := OBinaryOperation pl pr op]> (sl ∪ sr) ∪ rest) /\
     holds (<[a := OBinaryOperation pl pr op]> (sl ∪ sr)) (Some a)
       (BinaryOperation l op r) /\
     <[a := OBinaryOperation pl pr op]> (sl ∪ sr) ##ₘ rest) /\
  (exists a : addr,
     new alloc (OFunctionCall name pl) (sl ∪ (sr ∪ rest))
       = Some (Some a, <[a := OFunctionCall name pl]> sl ∪ (sr ∪ rest)) /\
     holds (<[a := OFunctionCall name pl]> sl) (Some a) (FunctionCall name l) /\
     <[a := OFunctionCall name pl]> sl ##ₘ sr ∪ rest).
Proof.
  intros Hl Hr Hd Hrest. split.
  - now apply new_BinaryOperation_holds.
  - apply new_FunctionCall_holds; [done |].
    apply map_disjoint_union_l in Hrest as [Hlrest _].
    now apply map_disjoint_union_r.
Qed.

(** X15: [main] prints 40 and 40, and when it returns every object it
    allocated is released: the store is the one it started in, whatever
    that store and the allocator are, given five nested calls or more. *)
Theorem main_prints_40_twice (rest : store) (more : nat) :
  main alloc (5 + more) rest = Some ((40%float, 40%float), rest).
Proof.
  unfold main.
  destruct (new_leaf_holds (ONumber 32%float) (Number 32%float) rest)
    as (a1 & E1 & H1 & D1); [intros; constructor |].
  unfold run_bind at 1. rewrite E1.
  destruct (new_leaf_holds (ONumber 16%float) (Number 16%float)
              ({[a1 := ONumber 32%float]} ∪ rest))
    as (a2 & E2 & H2 & D2); [intros; constructor |].
  unfold run_bind at 1. rewrite E2.
  apply map_disjoint_union_r in D2 as [D21 D2].
  replace ({[a2 := ONumber 16%float]} ∪ ({[a1 := ONumber 32%float]} ∪ rest))
    with ({[a1 := ONumber 32%float]} ∪ {[a2 := ONumber 16%float]} ∪ rest).
  2:{ rewrite map_union_assoc. f_equal. apply map_union_comm. now symmetry. }
  destruct (new_BinaryOperation_holds _ _ rest _ _ _ _ MINUS H1 H2)
    as (a3 & E3 & H3 & D3);
    [now symmetry | now apply map_disjoint_union_l |].
  unfold run_bind at 1. rewrite E3. clear E1 E2 E3.
  set (t3 := <[a3 := OBinaryOperation (Some a1) (Some a2) MINUS]>
               ({[a1 := ONumber 32%float]} ∪ {[a2 := ONumber 16%float]}))
    in *.
  destruct (new_FunctionCall_holds t3 rest _ _ "sqrt" H3 D3)
    as (a4 & E4 & H4 & D4).
  unfold run_bind at 1. rewrite E4. clear E4.
  set (t4 := <[a4 := OFunctionCall "sqrt" (Some a3)]> t3) in *.
  destruct (new_leaf_holds (OVariable "var" 10%float)
              (Variable_ "var" 10%float) (t4 ∪ rest))
    as (a5 & E5 & H5 & D5); [intros; constructor |].
  unfold run_bind at 1. rewrite E5. clear E5.
  apply map_disjoint_union_r in D5 as [D54 D5].
  rewrite map_union_assoc.
  destruct (new_BinaryOperation_holds _ _ rest _ _ _ _ MUL H5 H4)
    as (a6 & E6 & H6 & D6); [done | now apply map_disjoint_union_l |].
  unfold run_bind at 1. rewrite E6. clear E6.
  set (t6 := <[a6 := OBinaryOperation (Some a5) (Some a4) MUL]>
               ({[a5 := OVariable "var" 10%float]} ∪ t4)) in *.
  destruct (new_FunctionCall_holds t6 rest _ _ "abs" H6 D6)
    as (a7 & E7 & H7 & D7).
  unfold run_bind at 1. rewrite E7. clear E7.
  set (t7 := <[a7 := OFunctionCall "abs" (Some a6)]> t6) in *.
  change (holds t7 (Some a7) callAbs) in H7.
  assert (Hheight : height callAbs = 5%nat) by reflexivity.
  unfold run_bind at 1. unfold read at 1.
  rewrite (evaluate_at_holds t7 (Some a7) callAbs H7);
    [| apply map_union_subseteq_l | lia].
  destruct (transform_at_holds alloc alloc_fresh t7 (Some a7) callAbs H7
              (t7 ∪ rest) (5 + more))
    as (q & c & Ht & Hd & Hc); [apply map_union_subseteq_l | lia |].
  unfold run_bind at 1. rewrite Ht.
  change (copy callAbs) with callAbs in Hc.
  unfold run_bind at 1. unfold read at 1.
  rewrite (evaluate_at_holds c q callAbs Hc);
    [| apply map_union_subseteq_l | lia].
  apply map_disjoint_union_r in Hd as [Hct Hcrest].
  replace (c ∪ (t7 ∪ rest)) with (t7 ∪ (c ∪ rest)).
  2:{ rewrite !map_union_assoc. f_equal. now apply map_union_comm. }
  unfold run_bind at 1.
  rewrite (delete_at_holds t7 (Some a7) callAbs H7); [| | lia].
  2:{ apply map_disjoint_union_r. split; [now symmetry | done]. }
  unfold run_bind at 1.
  rewrite (delete_at_holds c q callAbs Hc); [| done | lia].
  reflexivity.
Qed.

End Construction.

Lemma constructors_take_ownership_witness :
  (forall s : store, s !! first_free s = None) /\
  holds leaf_one (Some 1%positive) (Number 1%float) /\
  holds leaf_two (Some 2%positive) (Number 2%float) /\
  leaf_one ##ₘ leaf_two /\ leaf_one ∪ leaf_two ##ₘ (∅ : store) /\
  (exists a : addr,
     new first_free (OBinaryOperation (Some 1%positive) (Some 2%positive) PLUS)
       (leaf_one ∪ leaf_two ∪ ∅)
       = Some (Some a,
               <[a := OBinaryOperation (Some 1%positive) (Some 2%positive) PLUS]>
                 (leaf_one ∪ leaf_two) ∪ ∅) /\
     holds
       (<[a := OBinaryOperation (Some 1%positive) (Some 2%positive) PLUS]>
          (leaf_one ∪ leaf_two))
       (Some a) (BinaryOperation (Number 1%float) PLUS (Number 2%float)) /\
     <[a := OBinaryOperation (Some 1%positive) (Some 2%positive) PLUS]>
       (leaf_one ∪ leaf_two) ##ₘ (∅ : store)) /\
  (exists a : addr,
     new first_free (OFunctionCall "abs" (Some 1%positive))
       (leaf_one ∪ (leaf_two ∪ ∅))
       = Some (Some a,
               <[a := OFunctionCall "abs" (Some 1%positive)]> leaf_one
                 ∪ (leaf_two ∪ ∅)) /\
     holds (<[a := OFunctionCall "abs" (Some 1%positive)]> leaf_one)
       (Some a) (FunctionCall "abs" (Number 1%float)) /\
     <[a := OFunctionCall "abs" (Some 1%positive)]> leaf_one
       ##ₘ leaf_two ∪ ∅).
Proof.
  assert (H1 : holds leaf_one (Some 1%positive) (Number 1%float))
    by constructor.
  assert (H2 : holds leaf_two (Some 2%positive) (Number 2%float))
    by constructor.
  assert (Hd : leaf_one ##ₘ leaf_two).
  { apply map_disjoint_singleton_l. reflexivity. }
  assert (Hrest : leaf_one ∪ leaf_two ##ₘ (∅ : store))
    by apply map_disjoint_empty_r.
  split; [exact first_free_fresh |].
  split; [exact H1 | split; [exact H2 | split; [exact Hd |]]].
  split; [exact Hrest |].
  exact (constructors_take_ownership first_free first_free_fresh
           leaf_one leaf_two ∅ (Some 1%positive) (Some 2%positive)
           (Number 1%float) (Number 2%float) PLUS "abs" H1 H2 Hd Hrest).
Defined.

Lemma main_prints_40_twice_witness :
  (forall s : store, s !! first_free s = None) /\
  main first_free (5 + 0) ∅ = Some ((40%float, 40%float), ∅).
Proof.
  split; [exact first_free_fresh |].
  exact (main_prints_40_twice first_free first_free_fresh ∅ 0).
Defined.
